(** * The memo store of note_api (src/note.ts)

    A shallow embedding of the [Note] class and of the route handlers built
    around it, followed by the properties of the store that the design
    document states.

    Conventions of the embedding:
    - a memo-shaped object is a record of two properties; a property is a
      string, the value [undefined], or missing from the object, so that
      [Memo] and [Partial<Memo>] arguments share one run-time shape;
    - an index is an integer ([Z]); JavaScript numbers that are not integers
      are outside the model;
    - a method is a function from the state of the [Note] object to an
      outcome (a returned value or a thrown [Error] with its message) and the
      state left behind. *)

From stdpp Require Import base numbers list strings.

Local Open Scope string_scope.
Local Open Scope list_scope.
Local Open Scope Z_scope.

(** ** Objects *)

(** One property of an object literal such as [{ data, author: username }]. *)
Inductive property : Type :=
  | Absent                (* the key is not in the object *)
  | Undefined             (* the key is there and holds [undefined] *)
  | Str (s : string).     (* the key is there and holds a string *)

(** [const memo = t.Object({ data: t.String(), author: t.String() })];
    [Partial<Memo>] is the same shape with keys allowed to be missing. *)
Record Memo : Type := mkMemo { data : property; author : property }.

#[global] Instance property_eq_dec : EqDecision property.
Proof. solve_decision. Defined.

#[global] Instance Memo_eq_dec : EqDecision Memo.
Proof. solve_decision. Defined.

(** [x === undefined], where reading a missing key gives [undefined]. *)
Definition is_undefined (x : property) : bool :=
  match x with
  | Absent | Undefined => true
  | Str _ => false
  end.

(** [!x]: [undefined] and the empty string are falsy. *)
Definition falsy (x : property) : bool :=
  match x with
  | Absent | Undefined => true
  | Str s => match s with EmptyString => true | String _ _ => false end
  end.

(** One key of [{ ...base, ...over }]: a key that [over] owns wins, whatever
    it holds. *)
Definition spread_property (base over : property) : property :=
  match over with
  | Absent => base
  | Undefined | Str _ => over
  end.

(** [{ ...base, ...over }]. *)
Definition spread (base over : Memo) : Memo :=
  {| data := spread_property (data base) (data over);
     author := spread_property (author base) (author over) |}.

(** Spreading [undefined] copies no key. *)
Definition spread_slot (base : option Memo) (over : Memo) : Memo :=
  match base with
  | Some b => spread b over
  | None => spread (mkMemo Absent Absent) over
  end.

(** ** Arrays of memos *)

(** [arr[index]] for an integer [index]; [None] stands for [undefined]. *)
Definition element (arr : list Memo) (index : Z) : option Memo :=
  if 0 <=? index then arr !! Z.to_nat index else None.

(** [arr.splice(index, 1)] seen as the array it leaves: a negative start
    counts from the end, a start past the end deletes nothing. *)
Definition splice1 (arr : list Memo) (index : Z) : list Memo :=
  let start :=
    if index <? 0 then Z.max (Z.of_nat (length arr) + index) 0 else index in
  delete (Z.to_nat start) arr.

(** [arr[index] = v] for an index inside the array; [update] performs the
    assignment only behind [isValidIndex]. *)
Definition assign (arr : list Memo) (index : Z) (v : Memo) : list Memo :=
  <[Z.to_nat index := v]> arr.

(** ** The state of a [Note] object and its methods *)

(** [private readonly data: Memo[]] *)
Record Note : Type := mkNote { this_data : list Memo }.

Inductive outcome (A : Type) : Type :=
  | Return (a : A)
  | Throw (message : string).
Arguments Return {A} a.
Arguments Throw {A} message.

Definition M (A : Type) : Type := Note → outcome A * Note.

Definition ret {A} (a : A) : M A := λ this, (Return a, this).
Definition throw {A} (message : string) : M A := λ this, (Throw message, this).
Definition bind {A B} (m : M A) (k : A → M B) : M B :=
  λ this,
    match m this with
    | (Return a, this') => k a this'
    | (Throw message, this') => (Throw message, this')
    end.
Definition read_data : M (list Memo) := λ this, (Return (this_data this), this).
Definition write_data (arr : list Memo) : M unit := λ _, (Return tt, mkNote arr).

Notation "'let*' x ':=' m 'in' k" := (bind m (λ x, k))
  (at level 10, x name, m at level 100, k at level 200).
Notation "m ';;;' k" := (bind m (λ _, k))
  (at level 100, k at level 200, right associativity).

(** [try { return m } catch (e) { return h(e.message) }] *)
Definition try_catch {A} (m : M A) (h : string → M A) : M A :=
  λ this,
    match m this with
    | (Return a, this') => (Return a, this')
    | (Throw message, this') => h message this'
    end.

Definition seed : Memo := {| data := Str "Moonhalo"; author := Str "saltyaom" |}.

(** [constructor(initialData = [{ data: "Moonhalo", author: "saltyaom" }])];
    [None] is a call without the argument. *)
Definition constructor (initialData : option (list Memo)) : Note :=
  {| this_data := default [seed] initialData |}.

Definition isValidIndex (index : Z) : M bool :=
  let* arr := read_data in
  ret ((0 <=? index) && (index <? Z.of_nat (length arr))).

Definition add (memo : Memo) : M (list Memo) :=
  if falsy (data memo) || falsy (author memo) then
    throw "Invalid memo: 'data' and 'author' fields are required."
  else
    let* arr := read_data in
    write_data (arr ++ [memo]) ;;;
    read_data.

Definition remove (index : Z) : M (list Memo) :=
  let* valid := isValidIndex index in
  if negb valid then
    throw "Invalid index: Unable to remove memo."
  else
    let* updated := read_data in
    ret (splice1 updated index).

Definition update (index : Z) (memo : Memo) : M (option Memo) :=
  let* valid := isValidIndex index in
  if negb valid then
    throw "Invalid index: Unable to update memo."
  else if is_undefined (data memo) && is_undefined (author memo) then
    throw "Invalid memo: At least one field ('data' or 'author') is required to update."
  else
    let* arr := read_data in
    write_data (assign arr index (spread_slot (element arr index) memo)) ;;;
    let* arr' := read_data in
    ret (element arr' index).

Definition get (index : Z) : M (option Memo) :=
  let* valid := isValidIndex index in
  if negb valid then
    throw "Invalid index: Unable to retrieve memo."
  else
    let* arr := read_data in
    ret (element arr index).

Definition getAll : M (list Memo) := read_data.

Definition clear : M (list Memo) := write_data [] ;;; ret [].

Definition count : M Z :=
  let* arr := read_data in ret (Z.of_nat (length arr)).

(** ** Error kinds *)

(** The design document names the two failures of the store [InvalidIndex]
    and [InvalidMemo]; the code tells them apart by the head of the message. *)
Definition InvalidIndex {A} (r : outcome A) : bool :=
  match r with
  | Throw message => String.prefix "Invalid index:" message
  | Return _ => false
  end.

Definition InvalidMemo {A} (r : outcome A) : bool :=
  match r with
  | Throw message => String.prefix "Invalid memo:" message
  | Return _ => false
  end.

Definition failed {A} (r : outcome A) : bool :=
  match r with
  | Throw _ => true
  | Return _ => false
  end.

(** ** Route handlers *)

(** What a handler hands back: a value, or [error(status, message)]. *)
Inductive reply : Type :=
  | Memos (arr : list Memo)
  | OneMemo (m : option Memo)
  | ErrorStatus (status : Z) (message : string).

(** The validated body [t.Object({ data: t.String() })] of PUT and PATCH.
    [body_rest] holds whatever other keys the client sent along; the
    handlers destructure [data] only. *)
Record Body : Type := mkBody {
  body_data : string;
  body_rest : list (string * string)
}.

(** [.get("/", ({ note }) => note.getAll())] *)
Definition list_handler : M reply :=
  let* arr := getAll in ret (Memos arr).

(** [.put("/", ({ note, body: { data }, username, error }) => ...)];
    [username] is the name that the [getUserId] plugin resolved. *)
Definition put_handler (username : string) (body : Body) : M reply :=
  try_catch
    (let* arr := add {| data := Str (body_data body); author := Str username |} in
     ret (Memos arr))
    (λ message, ret (ErrorStatus 400 message)).

(** [.get("/:index", ...)] *)
Definition get_handler (index : Z) : M reply :=
  try_catch
    (let* m := get index in ret (OneMemo m))
    (λ message, ret (ErrorStatus 404 message)).

(** [.delete("/:index", ...)] *)
Definition delete_handler (index : Z) : M reply :=
  try_catch
    (let* arr := remove index in ret (Memos arr))
    (λ message, ret (ErrorStatus 422 message)).

(** [.patch("/:index", ...)] *)
Definition patch_handler (username : string) (index : Z) (body : Body) : M reply :=
  try_catch
    (let* m := update index {| data := Str (body_data body); author := Str username |} in
     ret (OneMemo m))
    (λ message, ret (ErrorStatus 422 message)).

(** [.decorate("note", new Note())]: the store every handler starts from. *)
Definition note_at_start : Note := constructor None.

(** ** Vocabulary of the statements *)

Definition size (this : Note) : Z := Z.of_nat (length (this_data this)).

(** [0 <= index < length] *)
Definition in_range (this : Note) (index : Z) : Prop :=
  0 ≤ index < size this.

(** A property that carries a non-empty string. *)
Definition non_empty (x : property) : Prop :=
  ∃ s, x = Str s ∧ s ≠ "".

(** A partial memo supplies a key when the key holds a string. *)
Definition supplied (x : property) : Prop := ∃ s, x = Str s.

#[global] Instance in_range_dec this index : Decision (in_range this index).
Proof. unfold in_range. apply _. Defined.

(** A property that [add] treats as missing: the empty string, [undefined],
    or no key at all. *)
Definition empty_or_absent (x : property) : Prop :=
  x = Str "" ∨ x = Undefined ∨ x = Absent.


(** The memo that the PUT and PATCH handlers build from a request. *)
Definition from_request (username : string) (body : Body) : Memo :=
  {| data := Str (body_data body); author := Str username |}.

(** Two memos used in the examples. *)
Definition hello_alice : Memo := mkMemo (Str "hello") (Str "alice").

Definition untitled : Memo := mkMemo (Str "") (Str "x").

(** ** The routes as one application *)

(** A request that reached one of the five routes of [note], after body and
    parameter validation; PUT and PATCH carry the username that [getUserId]
    resolved. *)
Inductive request : Type :=
  | GetAll
  | Put (username : string) (body : Body)
  | GetOne (index : Z)
  | Delete (index : Z)
  | Patch (username : string) (index : Z) (body : Body).

(** The handler that the route table picks for a request. *)
Definition route (r : request) : M reply :=
  match r with
  | GetAll => list_handler
  | Put username body => put_handler username body
  | GetOne index => get_handler index
  | Delete index => delete_handler index
  | Patch username index body => patch_handler username index body
  end.

(** Requests are served one after the other on the one decorated store. *)
Fixpoint serve (rs : list request) (this : Note) : list (outcome reply) * Note :=
  match rs with
  | [] => ([], this)
  | r :: rs' =>
      let (o, this') := route r this in
      let (os, this'') := serve rs' this' in
      (o :: os, this'')
  end.

(** The usernames under which the requests of a run write. *)
Fixpoint writers (rs : list request) : list string :=
  match rs with
  | [] => []
  | Put username _ :: rs' | Patch username _ _ :: rs' => username :: writers rs'
  | _ :: rs' => writers rs'
  end.

(** A memo whose two fields are strings, as the type [Memo] declares. *)
Definition string_fields (m : Memo) : Prop :=
  supplied (data m) ∧ supplied (author m).

(** A memo that [add] accepts. *)
Definition acceptable (m : Memo) : Prop :=
  non_empty (data m) ∧ non_empty (author m).

(** * Properties *)

(** The first step of the end-to-end scenario of the design document. *)
Example scenario_add :
  add hello_alice note_at_start
  = (Return [seed; hello_alice],
     mkNote [seed; hello_alice]).
Proof. reflexivity. Qed.

(** ** What each method computes *)

Section Equations.
Variable this : Note.
Variable index : Z.

Lemma isValidIndex_run :
  isValidIndex index this = (Return (bool_decide (in_range this index)), this).
Proof.
  unfold isValidIndex, bind, read_data, ret, in_range, size. do 2 f_equal.
  destruct (Z.leb_spec 0 index), (Z.ltb_spec index (Z.of_nat (length (this_data this))));
    simpl; case_bool_decide; try done; lia.
Qed.

Lemma in_range_element :
  in_range this index →
  ∃ m, this_data this !! Z.to_nat index = Some m
       ∧ element (this_data this) index = Some m.
Proof.
  unfold in_range, size, element. intros [Hlo Hhi].
  destruct (lookup_lt_is_Some_2 (this_data this) (Z.to_nat index)) as [m Hm]; [lia |].
  exists m. split; [done |].
  destruct (Z.leb_spec 0 index); [done | lia].
Qed.

Lemma get_run :
  get index this
  = (if bool_decide (in_range this index)
     then Return (element (this_data this) index)
     else Throw "Invalid index: Unable to retrieve memo.", this).
Proof.
  unfold get, bind. rewrite isValidIndex_run. by case_bool_decide.
Qed.

Lemma splice1_in_range :
  in_range this index →
  splice1 (this_data this) index = delete (Z.to_nat index) (this_data this).
Proof.
  unfold in_range, splice1. intros [Hlo _].
  destruct (Z.ltb_spec index 0); [lia | done].
Qed.

Lemma remove_run :
  remove index this
  = (if bool_decide (in_range this index)
     then Return (delete (Z.to_nat index) (this_data this))
     else Throw "Invalid index: Unable to remove memo.", this).
Proof.
  unfold remove, bind. rewrite isValidIndex_run.
  case_bool_decide; simpl; [| done].
  unfold ret. by rewrite splice1_in_range.
Qed.

Lemma update_out_of_range memo :
  ¬ in_range this index →
  update index memo this = (Throw "Invalid index: Unable to update memo.", this).
Proof.
  intros Hout. unfold update, bind. rewrite isValidIndex_run.
  by rewrite bool_decide_eq_false_2.
Qed.

Lemma update_nothing_supplied memo :
  in_range this index →
  is_undefined (data memo) && is_undefined (author memo) = true →
  update index memo this
  = (Throw "Invalid memo: At least one field ('data' or 'author') is required to update.",
     this).
Proof.
  intros Hin Hnone. unfold update, bind. rewrite isValidIndex_run.
  rewrite bool_decide_eq_true_2 by done. simpl. by rewrite Hnone.
Qed.

Lemma update_in_range memo old :
  in_range this index →
  this_data this !! Z.to_nat index = Some old →
  is_undefined (data memo) && is_undefined (author memo) = false →
  update index memo this
  = (Return (Some (spread old memo)),
     mkNote (<[Z.to_nat index := spread old memo]> (this_data this))).
Proof.
  intros Hin Hold Hsome. unfold update, bind. rewrite isValidIndex_run.
  rewrite bool_decide_eq_true_2 by done. simpl. rewrite Hsome. simpl.
  destruct (in_range_element Hin) as (m & Hm & Hel).
  rewrite Hel. assert (m = old) as -> by congruence. simpl.
  unfold ret, assign, element. do 2 f_equal.
  destruct Hin as [Hlo Hhi]. unfold size in Hhi.
  destruct (Z.leb_spec 0 index); [| lia].
  apply list_lookup_insert_eq. lia.
Qed.
End Equations.

Lemma add_run memo this :
  add memo this
  = if falsy (data memo) || falsy (author memo)
    then (Throw "Invalid memo: 'data' and 'author' fields are required.", this)
    else (Return (this_data this ++ [memo]), mkNote (this_data this ++ [memo])).
Proof. unfold add. by destruct (falsy (data memo) || falsy (author memo)). Qed.

Lemma supplied_defined x : supplied x ↔ is_undefined x = false.
Proof.
  split.
  - by intros [s ->].
  - destruct x; [done | done | by exists s].
Qed.

Lemma non_empty_truthy x : non_empty x ↔ falsy x = false.
Proof.
  split.
  - intros (s & -> & Hs). by destruct s.
  - destruct x as [| | s]; [done | done |]. destruct s; [done |].
    intros _. by eexists.
Qed.

(** ** The seed memo *)

(** C9. A [Note] constructed without arguments holds exactly the seed memo
    [{data: "Moonhalo", author: "saltyaom"}]; the store the routes are
    decorated with is such an object, so the first [getAll] before any
    mutation returns that one-element sequence and leaves the store as it
    was. *)
Theorem constructor_seeds_store :
  constructor None = mkNote [mkMemo (Str "Moonhalo") (Str "saltyaom")]
  ∧ note_at_start = constructor None
  ∧ getAll note_at_start
    = (Return [mkMemo (Str "Moonhalo") (Str "saltyaom")], note_at_start)
  ∧ list_handler note_at_start
    = (Return (Memos [mkMemo (Str "Moonhalo") (Str "saltyaom")]), note_at_start).
Proof. by repeat split. Qed.

(** ** Index validity *)

Lemma InvalidIndex_iff {A} (ok : A) (message : string) this index :
  String.prefix "Invalid index:" message = true →
  InvalidIndex (if bool_decide (in_range this index)
                then Return ok else Throw message) = true
  ↔ index < 0 ∨ size this ≤ index.
Proof.
  intros Hmsg. unfold in_range. case_bool_decide; simpl.
  - split; [done | lia].
  - split; [lia | done].
Qed.

(** C5. For a store of length [n] and an integer [i], each of [get(i)],
    [update(i, p)] and [remove(i)] fails with InvalidIndex exactly when
    [i < 0] or [i >= n]; on the empty store index [0] fails with
    InvalidIndex for all three. *)
Theorem invalid_index_rule this i p :
  (InvalidIndex (get i this).1 = true ↔ i < 0 ∨ size this ≤ i)
  ∧ (InvalidIndex (update i p this).1 = true ↔ i < 0 ∨ size this ≤ i)
  ∧ (InvalidIndex (remove i this).1 = true ↔ i < 0 ∨ size this ≤ i)
  ∧ InvalidIndex (get 0 (mkNote [])).1 = true
  ∧ InvalidIndex (update 0 p (mkNote [])).1 = true
  ∧ InvalidIndex (remove 0 (mkNote [])).1 = true.
Proof.
  split_and!; try done.
  - rewrite get_run. simpl. by apply InvalidIndex_iff.
  - destruct (decide (in_range this i)) as [Hin | Hout].
    + assert (InvalidIndex (update i p this).1 = false) as ->.
      { destruct (is_undefined (data p) && is_undefined (author p)) eqn:Hp.
        - by rewrite update_nothing_supplied.
        - destruct (in_range_element _ _ Hin) as (old & Hold & _).
          by rewrite (update_in_range _ _ _ _ Hin Hold Hp). }
      unfold in_range in Hin. split; [done | lia].
    + rewrite update_out_of_range by done. simpl.
      unfold in_range in Hout. split; [lia | done].
  - rewrite remove_run. simpl. by apply InvalidIndex_iff.
Qed.

(** ** [remove] *)

(** C2. Whatever the index, [remove(i)] leaves the stored sequence exactly
    as it was: on a valid index it returns a copy of the sequence with the
    entry at [i] left out, on an invalid one it throws; the store is not
    written in either case. *)
Theorem remove_leaves_store_unchanged this i :
  (remove i this).2 = this
  ∧ (remove i this).1
    = if bool_decide (in_range this i)
      then Return (delete (Z.to_nat i) (this_data this))
      else Throw "Invalid index: Unable to remove memo.".
Proof. by rewrite remove_run. Qed.

(** C1, as the code runs. In the store [[seed; hello_alice]], [remove(0)]
    returns the one-element sequence [[hello_alice]], yet the [getAll] that
    follows still returns both memos: the length is 2, not 1, and position
    0 still holds the seed memo rather than the memo that was at 1. *)
Theorem remove_then_getAll_still_has_entry :
  let this := mkNote [seed; hello_alice] in
  in_range this 0
  ∧ (remove 0 this).1 = Return [hello_alice]
  ∧ getAll (remove 0 this).2 = (Return [seed; hello_alice], this)
  ∧ get 0 (remove 0 this).2 = (Return (Some seed), this).
Proof. by split_and!. Qed.

(** ** [add] *)

Lemma falsy_empty_or_absent x : falsy x = true ↔ empty_or_absent x.
Proof.
  unfold empty_or_absent. split.
  - destruct x as [| | s]; [by auto | by auto |]. destruct s; [by auto | done].
  - by intros [-> | [-> | ->]].
Qed.

Lemma add_rejected this m :
  empty_or_absent (data m) ∨ empty_or_absent (author m) →
  add m this
  = (Throw "Invalid memo: 'data' and 'author' fields are required.", this).
Proof.
  intros Hbad. rewrite add_run.
  assert (falsy (data m) || falsy (author m) = true) as ->; [| done].
  apply orb_true_iff. by rewrite !falsy_empty_or_absent.
Qed.

Lemma add_accepted this m :
  non_empty (data m) → non_empty (author m) →
  add m this = (Return (this_data this ++ [m]), mkNote (this_data this ++ [m])).
Proof.
  intros Hd%non_empty_truthy Ha%non_empty_truthy.
  by rewrite add_run, Hd, Ha.
Qed.

(** C7. A memo [m] whose [data] and [author] are both non-empty is accepted
    by [add] on a store of length [n]: [m] is appended, the new length is
    [n + 1], [add] returns the whole new sequence, and [get(n)] then returns
    exactly [m]. When [data] or [author] is empty or absent, [add] fails
    with InvalidMemo and nothing is appended. *)
Theorem add_appends this m :
  (non_empty (data m) → non_empty (author m) →
     add m this = (Return (this_data this ++ [m]), mkNote (this_data this ++ [m]))
     ∧ size (add m this).2 = size this + 1
     ∧ get (size this) (add m this).2 = (Return (Some m), (add m this).2))
  ∧ (empty_or_absent (data m) ∨ empty_or_absent (author m) →
     InvalidMemo (add m this).1 = true ∧ (add m this).2 = this).
Proof.
  split.
  - intros Hd Ha. rewrite add_accepted by done. simpl.
    assert (size (mkNote (this_data this ++ [m])) = size this + 1) as Hsize.
    { unfold size. simpl. rewrite length_app. simpl. lia. }
    split_and!; [done | done |].
    rewrite get_run, bool_decide_eq_true_2
      by (unfold in_range; rewrite Hsize; unfold size; lia).
    do 2 f_equal. unfold element, size. simpl.
    destruct (Z.leb_spec 0 (Z.of_nat (length (this_data this)))); [| lia].
    rewrite Nat2Z.id. by apply list_lookup_middle.
  - intros Hbad. by rewrite add_rejected.
Qed.

Lemma add_appends_witness :
  (add hello_alice note_at_start
   = (Return [seed; hello_alice], mkNote [seed; hello_alice])
   ∧ size (add hello_alice note_at_start).2 = size note_at_start + 1
   ∧ get (size note_at_start) (add hello_alice note_at_start).2
     = (Return (Some hello_alice), (add hello_alice note_at_start).2))
  ∧ (InvalidMemo (add untitled note_at_start).1 = true
     ∧ (add untitled note_at_start).2 = note_at_start).
Proof.
  split.
  - apply (add_appends note_at_start hello_alice);
      eexists; (split; [reflexivity | discriminate]).
  - apply (add_appends note_at_start untitled). left. left. reflexivity.
Defined.

(** ** [update] *)





Example update_stores_empty_data :
  update 0 (mkMemo (Str "") Absent) note_at_start
  = (Return (Some (mkMemo (Str "") (Str "saltyaom"))),
     mkNote [mkMemo (Str "") (Str "saltyaom")]).
Proof. reflexivity. Qed.



(** C10. At a valid index [i], an update that supplies [data] or [author]
    keeps the length of the sequence and leaves the memo at every position
    other than [i] as it was. *)
Theorem update_frame this i p
    (Hi : in_range this i) (Hp : supplied (data p) ∨ supplied (author p)) :
  length (this_data (update i p this).2) = length (this_data this)
  ∧ ∀ j, j ≠ i →
      element (this_data (update i p this).2) j = element (this_data this) j.
Proof.
  destruct (in_range_element _ _ Hi) as (old & Hold & _).
  assert (is_undefined (data p) && is_undefined (author p) = false) as Hsome.
  { apply andb_false_iff. rewrite <- !supplied_defined. tauto. }
  rewrite (update_in_range _ _ _ _ Hi Hold Hsome). simpl.
  split; [apply length_insert |].
  intros j Hj. unfold element.
  destruct (Z.leb_spec 0 j); [| done].
  apply list_lookup_insert_ne. destruct Hi as [Hlo _]. lia.
Qed.

Lemma update_frame_witness :
  let this := mkNote [seed; hello_alice] in
  let p := mkMemo (Str "hi") Absent in
  length (this_data (update 1 p this).2) = 2%nat
  ∧ element (this_data (update 1 p this).2) 0 = Some seed.
Proof.
  intros this p.
  assert (in_range this 1) as Hi by (unfold in_range, size; simpl; lia).
  assert (supplied (data p) ∨ supplied (author p)) as Hp
    by (left; eexists; reflexivity).
  destruct (update_frame this 1 p Hi Hp) as [Hlen Hother].
  split; [exact Hlen |].
  rewrite (Hother 0); [reflexivity | lia].
Defined.

(** ** Failures write nothing *)

(** C8. When [add], [get], [update] or [remove] fails, the stored sequence
    after the call is the sequence before it. *)
Theorem failure_leaves_store this m i p :
  (failed (add m this).1 = true → (add m this).2 = this)
  ∧ (failed (get i this).1 = true → (get i this).2 = this)
  ∧ (failed (update i p this).1 = true → (update i p this).2 = this)
  ∧ (failed (remove i this).1 = true → (remove i this).2 = this).
Proof.
  split_and!.
  - rewrite add_run. by destruct (falsy (data m) || falsy (author m)).
  - by rewrite get_run.
  - destruct (decide (in_range this i)) as [Hin | Hout].
    + destruct (is_undefined (data p) && is_undefined (author p)) eqn:Hp.
      * by rewrite update_nothing_supplied.
      * destruct (in_range_element _ _ Hin) as (old & Hold & _).
        by rewrite (update_in_range _ _ _ _ Hin Hold Hp).
    + by rewrite update_out_of_range.
  - by rewrite remove_run.
Qed.

Lemma failure_leaves_store_witness :
  (add untitled note_at_start).2 = note_at_start
  ∧ (get 5 note_at_start).2 = note_at_start
  ∧ (update 0 (mkMemo Absent Absent) note_at_start).2 = note_at_start
  ∧ (remove (-1) note_at_start).2 = note_at_start.
Proof.
  destruct (failure_leaves_store note_at_start untitled 5 (mkMemo Absent Absent))
    as (Hadd & Hget & _ & _).
  destruct (failure_leaves_store note_at_start untitled 0 (mkMemo Absent Absent))
    as (_ & _ & Hupdate & _).
  destruct (failure_leaves_store note_at_start untitled (-1) (mkMemo Absent Absent))
    as (_ & _ & _ & Hremove).
  split; [apply Hadd; reflexivity |].
  split; [apply Hget; reflexivity |].
  split; [apply Hupdate; reflexivity | apply Hremove; reflexivity].
Defined.

(** ** The author a handler passes on *)

Lemma put_handler_run username body this :
  put_handler username body this
  = if falsy (Str (body_data body)) || falsy (Str username)
    then (Return (ErrorStatus 400 "Invalid memo: 'data' and 'author' fields are required."),
          this)
    else (Return (Memos (this_data this ++ [from_request username body])),
          mkNote (this_data this ++ [from_request username body])).
Proof.
  unfold put_handler, try_catch, bind. rewrite add_run. simpl.
  by destruct (_ || _).
Qed.

Lemma patch_handler_run username index body this :
  patch_handler username index body this
  = if bool_decide (in_range this index)
    then (Return (OneMemo (Some (from_request username body))),
          mkNote (<[Z.to_nat index := from_request username body]> (this_data this)))
    else (Return (ErrorStatus 422 "Invalid index: Unable to update memo."), this).
Proof.
  unfold patch_handler, try_catch, bind. case_bool_decide as Hin.
  - destruct (in_range_element _ _ Hin) as (old & Hold & _).
    by rewrite (update_in_range _ _ _ _ Hin Hold).
  - by rewrite update_out_of_range.
Qed.

(** C4. Whatever the client sends, the memo that the PUT handler gives to
    [add] and the memo that the PATCH handler gives to [update] carry the
    resolved username as author: a PUT either answers 400 and writes
    nothing or appends [{data, author: username}], a PATCH either answers
    422 and writes nothing or stores [{data, author: username}] at the
    index, and every memo found in the store afterwards was there before or
    has the resolved username as its author. *)
Theorem handlers_force_author username index body this :
  (put_handler username body this
   = if falsy (Str (body_data body)) || falsy (Str username)
     then (Return (ErrorStatus 400 "Invalid memo: 'data' and 'author' fields are required."),
           this)
     else (Return (Memos (this_data this ++ [mkMemo (Str (body_data body)) (Str username)])),
           mkNote (this_data this ++ [mkMemo (Str (body_data body)) (Str username)])))
  ∧ (patch_handler username index body this
     = if bool_decide (in_range this index)
       then (Return (OneMemo (Some (mkMemo (Str (body_data body)) (Str username)))),
             mkNote (<[Z.to_nat index := mkMemo (Str (body_data body)) (Str username)]>
                       (this_data this)))
       else (Return (ErrorStatus 422 "Invalid index: Unable to update memo."), this))
  ∧ (∀ m, m ∈ this_data (put_handler username body this).2 →
          m ∈ this_data this ∨ author m = Str username)
  ∧ (∀ m, m ∈ this_data (patch_handler username index body this).2 →
          m ∈ this_data this ∨ author m = Str username).
Proof.
  split_and!.
  - apply put_handler_run.
  - apply patch_handler_run.
  - intros m. rewrite put_handler_run.
    destruct (_ || _); simpl; [by left |].
    rewrite elem_of_app, list_elem_of_singleton. intros [Hold | ->]; [by left | by right].
  - intros m. rewrite patch_handler_run.
    case_bool_decide; simpl; [| by left].
    intros (k & Hk)%list_elem_of_lookup_1.
    apply list_lookup_insert_Some in Hk as [(_ & <- & _) | (_ & Hk)].
    + by right.
    + left. by eapply list_elem_of_lookup_2.
Qed.

(** ** A key that holds [undefined] *)

(** The guard of [update] reads a key that holds [undefined] as not
    supplied, while the spread copies it: next to a supplied [author], an
    explicit [data: undefined] replaces the stored [data]. *)
Example update_explicit_undefined :
  update 0 (mkMemo Undefined (Str "x")) note_at_start
  = (Return (Some (mkMemo Undefined (Str "x"))),
     mkNote [mkMemo Undefined (Str "x")]).
Proof. reflexivity. Qed.

(** * Further properties of the store *)

Lemma update_run index memo this :
  update index memo this
  = if bool_decide (in_range this index) then
      if is_undefined (data memo) && is_undefined (author memo)
      then (Throw "Invalid memo: At least one field ('data' or 'author') is required to update.",
            this)
      else (Return (Some (spread_slot (this_data this !! Z.to_nat index) memo)),
            mkNote (<[Z.to_nat index := spread_slot (this_data this !! Z.to_nat index) memo]>
                      (this_data this)))
    else (Throw "Invalid index: Unable to update memo.", this).
Proof.
  case_bool_decide as Hin; [| by apply update_out_of_range].
  destruct (is_undefined (data memo) && is_undefined (author memo)) eqn:Hguard.
  - by apply update_nothing_supplied.
  - destruct (in_range_element _ _ Hin) as (old & Hold & _).
    rewrite Hold. simpl. by apply update_in_range.
Qed.

Lemma in_range_empty index : ¬ in_range (mkNote []) index.
Proof. unfold in_range, size. simpl. lia. Qed.

Lemma in_range_same_length this this' index :
  length (this_data this') = length (this_data this) →
  in_range this' index ↔ in_range this index.
Proof. unfold in_range, size. by intros ->. Qed.

(** ** [clear] and [count] *)

(** After [clear] the store is empty: [clear] returns the empty sequence,
    [count] is 0, [getAll] is empty, and [get], [update] and [remove] fail
    with InvalidIndex at every index. *)
Theorem clear_empties_store this i p :
  (clear this).1 = Return []
  ∧ count (clear this).2 = (Return 0, (clear this).2)
  ∧ getAll (clear this).2 = (Return [], (clear this).2)
  ∧ InvalidIndex (get i (clear this).2).1 = true
  ∧ InvalidIndex (update i p (clear this).2).1 = true
  ∧ InvalidIndex (remove i (clear this).2).1 = true.
Proof.
  assert (clear this = (Return [], mkNote [])) as -> by done. simpl.
  pose proof (in_range_empty i) as Hout.
  split_and!; [done | done | done | | |].
  - by rewrite get_run, bool_decide_eq_false_2.
  - by rewrite update_out_of_range.
  - by rewrite remove_run, bool_decide_eq_false_2.
Qed.

(** [count] reports the length of what [getAll] returns. A successful [add]
    raises it by one; a failed [add] and every [get], [update] and [remove]
    leave it as it was. *)
Theorem count_follows_operations this m i p :
  ∃ n arr,
    count this = (Return n, this)
    ∧ getAll this = (Return arr, this)
    ∧ n = Z.of_nat (length arr)
    ∧ (count (add m this).2).1
      = Return (if failed (add m this).1 then n else n + 1)
    ∧ (count (get i this).2).1 = Return n
    ∧ (count (update i p this).2).1 = Return n
    ∧ (count (remove i this).2).1 = Return n.
Proof.
  exists (size this), (this_data this).
  split_and!; [done | done | done | | | |].
  - rewrite add_run. destruct (_ || _); simpl; [done |].
    unfold count, bind, read_data, ret, size. simpl.
    rewrite length_app. simpl. do 2 f_equal. lia.
  - by rewrite get_run.
  - rewrite update_run. case_bool_decide; [| done].
    destruct (_ && _); simpl; [done |].
    unfold count, bind, read_data, ret, size. simpl. by rewrite length_insert.
  - by rewrite remove_run.
Qed.

(** ** [get] against [getAll] *)

(** For an integer index [i], [get(i)] returns a memo exactly when that
    memo stands at position [i] of the sequence [getAll] returns; a
    successful [get] at an integer index never returns [undefined], and
    [get] never writes. *)
Theorem get_agrees_with_getAll this i :
  (∀ m, (get i this).1 = Return (Some m)
        ↔ ∃ arr, (getAll this).1 = Return arr ∧ element arr i = Some m)
  ∧ (get i this).1 ≠ Return None
  ∧ (get i this).2 = this.
Proof.
  rewrite get_run. simpl. split_and!; [| | done].
  - intros m. case_bool_decide as Hin.
    + split.
      * intros [= Hm]. by exists (this_data this).
      * intros (arr & [= <-] & Hm). by rewrite Hm.
    + split; [done |].
      intros (arr & [= <-] & Hm). destruct Hin.
      unfold element in Hm. destruct (Z.leb_spec 0 i); [| done].
      apply lookup_lt_Some in Hm. unfold in_range, size. lia.
  - case_bool_decide as Hin; [| done].
    destruct (in_range_element _ _ Hin) as (m & _ & ->). done.
Qed.

(** ** The two kinds of failure *)

(** [add] fails with InvalidMemo only, [get] and [remove] with InvalidIndex
    only, and a failing [update] with exactly one of the two; [update]
    tests the index first, so it reports InvalidMemo only at a valid
    index. *)
Theorem failure_kinds this m i p :
  (failed (add m this).1 = InvalidMemo (add m this).1
   ∧ InvalidIndex (add m this).1 = false)
  ∧ (failed (get i this).1 = InvalidIndex (get i this).1
     ∧ InvalidMemo (get i this).1 = false)
  ∧ (failed (remove i this).1 = InvalidIndex (remove i this).1
     ∧ InvalidMemo (remove i this).1 = false)
  ∧ failed (update i p this).1
    = xorb (InvalidIndex (update i p this).1) (InvalidMemo (update i p this).1)
  ∧ (InvalidMemo (update i p this).1 = true → in_range this i).
Proof.
  split_and!.
  - rewrite add_run. by destruct (_ || _).
  - rewrite add_run. by destruct (_ || _).
  - rewrite get_run. by case_bool_decide.
  - rewrite get_run. by case_bool_decide.
  - rewrite remove_run. by case_bool_decide.
  - rewrite remove_run. by case_bool_decide.
  - rewrite update_run. case_bool_decide; [| done]. by destruct (_ && _).
  - rewrite update_run. by case_bool_decide.
Qed.

Lemma failure_kinds_witness :
  in_range note_at_start 0.
Proof.
  destruct (failure_kinds note_at_start seed 0 (mkMemo Absent Absent))
    as (_ & _ & _ & _ & Hvalid).
  apply Hvalid. reflexivity.
Defined.

(** ** What [remove] returns *)

(** At a valid integer index [i] the sequence that [remove(i)] returns is
    one shorter than the store; it has the stored memos below [i] at their
    positions and every later memo one position down. *)
Theorem remove_returns_shifted this i (Hi : in_range this i) :
  ∃ arr,
    (remove i this).1 = Return arr
    ∧ Z.of_nat (length arr) = size this - 1
    ∧ (∀ j, 0 ≤ j < i → element arr j = element (this_data this) j)
    ∧ (∀ j, i ≤ j → element arr j = element (this_data this) (j + 1)).
Proof.
  exists (delete (Z.to_nat i) (this_data this)).
  rewrite remove_run, bool_decide_eq_true_2 by done. simpl.
  destruct (in_range_element _ _ Hi) as (m & Hm & _).
  destruct Hi as [Hlo Hhi]. unfold size in *.
  split_and!; [done | | |].
  - rewrite length_delete by eauto.
    apply lookup_lt_Some in Hm. lia.
  - intros j [Hj0 Hji]. unfold element.
    destruct (Z.leb_spec 0 j); [| lia].
    apply list_lookup_delete_lt. lia.
  - intros j Hij. unfold element.
    destruct (Z.leb_spec 0 j), (Z.leb_spec 0 (j + 1)); try lia.
    rewrite list_lookup_delete_ge by lia.
    f_equal. lia.
Qed.

Lemma remove_returns_shifted_witness :
  ∃ arr,
    (remove 0 (mkNote [seed; hello_alice])).1 = Return arr
    ∧ Z.of_nat (length arr) = 1
    ∧ element arr 0 = Some hello_alice.
Proof.
  assert (in_range (mkNote [seed; hello_alice]) 0) as Hi
    by (unfold in_range, size; simpl; lia).
  destruct (remove_returns_shifted (mkNote [seed; hello_alice]) 0 Hi)
    as (arr & Hrun & Hlen & _ & Hup).
  exists arr. split; [exact Hrun |]. split; [exact Hlen |].
  rewrite (Hup 0); [reflexivity | lia].
Defined.

(** Removing the index at which an accepted memo has just been added
    returns the sequence as it was before the [add]. *)
Theorem add_then_remove_last this m
    (Hd : non_empty (data m)) (Ha : non_empty (author m)) :
  (remove (size this) (add m this).2).1 = Return (this_data this).
Proof.
  rewrite add_accepted by done. simpl.
  rewrite remove_run, bool_decide_eq_true_2.
  - simpl. unfold size. rewrite Nat2Z.id.
    by rewrite delete_middle, app_nil_r.
  - unfold in_range, size. simpl. rewrite length_app. simpl. lia.
Qed.

Lemma add_then_remove_last_witness :
  (remove (size note_at_start) (add hello_alice note_at_start).2).1
  = Return [seed].
Proof.
  apply (add_then_remove_last note_at_start hello_alice);
    eexists; (split; [reflexivity | discriminate]).
Defined.

(** ** [add] and the memos already stored *)

(** Whether [add] accepts the memo or not, [get] at an index that was valid
    before the call returns what it returned before. *)
Theorem add_keeps_existing this m j (Hj : in_range this j) :
  (get j (add m this).2).1 = (get j this).1.
Proof.
  rewrite add_run. destruct (_ || _); simpl; [done |].
  destruct (in_range_element _ _ Hj) as (old & Hold & Hel).
  destruct Hj as [Hlo Hhi]. unfold size in Hhi.
  rewrite !get_run, !bool_decide_eq_true_2.
  - simpl. f_equal. rewrite Hel. unfold element.
    destruct (Z.leb_spec 0 j); [| lia].
    by apply lookup_app_l_Some.
  - by unfold in_range, size.
  - unfold in_range, size. simpl. rewrite length_app. lia.
Qed.

Lemma add_keeps_existing_witness :
  (get 0 (add hello_alice note_at_start).2).1 = Return (Some seed).
Proof.
  assert (in_range note_at_start 0) as Hj by (unfold in_range, size; simpl; lia).
  rewrite (add_keeps_existing note_at_start hello_alice 0 Hj). reflexivity.
Defined.

(** A store in which every memo has a non-empty [data] and a non-empty
    [author] is still such a store after [add], whatever memo is offered. *)
Theorem add_keeps_acceptable this m
    (Hall : Forall acceptable (this_data this)) :
  Forall acceptable (this_data (add m this).2).
Proof.
  rewrite add_run.
  destruct (falsy (data m)) eqn:Hd, (falsy (author m)) eqn:Ha; simpl; try done.
  apply Forall_app. split; [done |].
  apply Forall_singleton. split; by apply non_empty_truthy.
Qed.

Lemma add_keeps_acceptable_witness :
  Forall acceptable (this_data (add untitled note_at_start).2)
  ∧ Forall acceptable (this_data (add hello_alice note_at_start).2).
Proof.
  assert (Forall acceptable (this_data note_at_start)) as Hall.
  { apply Forall_singleton.
    split; eexists; (split; [reflexivity | discriminate]). }
  split.
  - exact (add_keeps_acceptable note_at_start untitled Hall).
  - exact (add_keeps_acceptable note_at_start hello_alice Hall).
Defined.

(** ** Repeated updates *)

Lemma spread_property_assoc b x y :
  spread_property (spread_property b x) y = spread_property b (spread_property x y).
Proof. by destruct y. Qed.

Lemma spread_assoc b x y : spread (spread b x) y = spread b (spread x y).
Proof. unfold spread. simpl. by rewrite !spread_property_assoc. Qed.

Lemma spread_twice b x : spread (spread b x) x = spread b x.
Proof. unfold spread. simpl. by destruct (data x), (author x). Qed.

Lemma guard_spread x y :
  is_undefined (data y) && is_undefined (author y) = false →
  is_undefined (data (spread x y)) && is_undefined (author (spread x y)) = false.
Proof. simpl. destruct (data y), (author y); simpl; by rewrite ?andb_false_r. Qed.

(** Sending the same update twice changes nothing more than sending it
    once: the second call returns what the first returned and leaves the
    store the first left. *)
Theorem update_idempotent this i p :
  update i p (update i p this).2 = update i p this.
Proof.
  destruct (decide (in_range this i)) as [Hin | Hout];
    [| rewrite (update_out_of_range this i p Hout); simpl;
       by apply update_out_of_range].
  destruct (is_undefined (data p) && is_undefined (author p)) eqn:Hp;
    [rewrite (update_nothing_supplied this i p Hin Hp); simpl;
     by apply update_nothing_supplied |].
  destruct (in_range_element _ _ Hin) as (old & Hold & _).
  rewrite (update_in_range _ _ _ _ Hin Hold Hp). simpl.
  assert (Z.to_nat i < length (this_data this))%nat as Hlt
    by by eapply lookup_lt_Some.
  rewrite (update_in_range _ _ p (spread old p)); [| | | done].
  - simpl. by rewrite spread_twice, list_insert_insert_eq.
  - eapply in_range_same_length; [| done]. simpl. apply length_insert.
  - simpl. by apply list_lookup_insert_eq.
Qed.

(** Two accepted updates at one index amount to one update with the second
    partial memo spread over the first. *)
Theorem update_twice this i p q
    (Hi : in_range this i)
    (Hp : is_undefined (data p) && is_undefined (author p) = false)
    (Hq : is_undefined (data q) && is_undefined (author q) = false) :
  update i q (update i p this).2 = update i (spread p q) this.
Proof.
  destruct (in_range_element _ _ Hi) as (old & Hold & _).
  rewrite (update_in_range _ _ _ _ Hi Hold Hp). simpl.
  assert (Z.to_nat i < length (this_data this))%nat as Hlt
    by by eapply lookup_lt_Some.
  rewrite (update_in_range _ _ q (spread old p)); [| | | done].
  - rewrite (update_in_range _ _ _ _ Hi Hold (guard_spread p q Hq)). simpl.
    by rewrite spread_assoc, list_insert_insert_eq.
  - eapply in_range_same_length; [| done]. simpl. apply length_insert.
  - simpl. by apply list_lookup_insert_eq.
Qed.

Lemma update_twice_witness :
  update 0 (mkMemo Absent (Str "bob")) (update 0 (mkMemo (Str "hi") Absent) note_at_start).2
  = (Return (Some (mkMemo (Str "hi") (Str "bob"))),
     mkNote [mkMemo (Str "hi") (Str "bob")]).
Proof.
  assert (in_range note_at_start 0) as Hi by (unfold in_range, size; simpl; lia).
  rewrite (update_twice note_at_start 0 (mkMemo (Str "hi") Absent)
             (mkMemo Absent (Str "bob")) Hi); reflexivity.
Defined.

(** * Properties of the routes *)

Lemma get_handler_run index this :
  get_handler index this
  = (Return (if bool_decide (in_range this index)
             then OneMemo (element (this_data this) index)
             else ErrorStatus 404 "Invalid index: Unable to retrieve memo."),
     this).
Proof.
  unfold get_handler, try_catch, bind. rewrite get_run. by case_bool_decide.
Qed.

Lemma delete_handler_run index this :
  delete_handler index this
  = (Return (if bool_decide (in_range this index)
             then Memos (delete (Z.to_nat index) (this_data this))
             else ErrorStatus 422 "Invalid index: Unable to remove memo."),
     this).
Proof.
  unfold delete_handler, try_catch, bind. rewrite remove_run. by case_bool_decide.
Qed.

Lemma serve_cons r rs this :
  serve (r :: rs) this
  = ((route r this).1 :: (serve rs (route r this).2).1,
     (serve rs (route r this).2).2).
Proof.
  cbn [serve]. destruct (route r this) as [o this']. cbn [fst snd].
  by destruct (serve rs this').
Qed.


Lemma route_size r this :
  size this ≤ size (route r this).2 ≤ size this + 1.
Proof.
  unfold size.
  destruct r as [| username body | index | index | username index body]; simpl.
  - lia.
  - rewrite put_handler_run. destruct (_ || _); simpl; [lia |].
    rewrite length_app. simpl. lia.
  - rewrite get_handler_run. simpl. lia.
  - rewrite delete_handler_run. simpl. lia.
  - rewrite patch_handler_run. case_bool_decide; simpl; [| lia].
    rewrite length_insert. lia.
Qed.

Lemma route_writes r this m :
  m ∈ this_data (route r this).2 →
  m ∈ this_data this
  ∨ ∃ u, u ∈ writers [r] ∧ data m ≠ Absent ∧ data m ≠ Undefined ∧ author m = Str u.
Proof.
  destruct r as [| username body | index | index | username index body]; simpl.
  - by left.
  - rewrite put_handler_run. destruct (_ || _); simpl; [by left |].
    rewrite elem_of_app, list_elem_of_singleton. intros [Hold | ->]; [by left |].
    right. exists username. split_and!; [| done | done | done].
    apply list_elem_of_singleton. done.
  - rewrite get_handler_run. by left.
  - rewrite delete_handler_run. by left.
  - rewrite patch_handler_run. case_bool_decide; simpl; [| by left].
    intros (k & Hk)%list_elem_of_lookup_1.
    apply list_lookup_insert_Some in Hk as [(_ & <- & _) | (_ & Hk)].
    + right. exists username. split_and!; [| done | done | done].
      apply list_elem_of_singleton. done.
    + left. by eapply list_elem_of_lookup_2.
Qed.

Lemma writers_cons r rs u :
  u ∈ writers (r :: rs) ↔ u ∈ writers [r] ∨ u ∈ writers rs.
Proof.
  destruct r; simpl; rewrite ?elem_of_cons, ?elem_of_nil; tauto.
Qed.

(** At an integer index parameter the GET-by-index and DELETE routes answer
    without writing. An integer out of range gives 404 on GET and 422 on
    DELETE with the message of the store; a valid integer index gives the
    memo on GET and, on DELETE, the sequence without the entry. Since DELETE
    writes nothing, listing after a DELETE answers what listing before it
    answered. *)
Theorem get_and_delete_routes index this :
  get_handler index this
  = (Return (if bool_decide (in_range this index)
             then OneMemo (element (this_data this) index)
             else ErrorStatus 404 "Invalid index: Unable to retrieve memo."),
     this)
  ∧ delete_handler index this
    = (Return (if bool_decide (in_range this index)
               then Memos (delete (Z.to_nat index) (this_data this))
               else ErrorStatus 422 "Invalid index: Unable to remove memo."),
       this)
  ∧ (list_handler (delete_handler index this).2).1 = (list_handler this).1.
Proof.
  split_and!.
  - apply get_handler_run.
  - apply delete_handler_run.
  - by rewrite delete_handler_run.
Qed.

(** PUT and PATCH treat an empty [data] differently: for any username and
    any valid index, PUT with [data: ""] answers 400 and writes nothing,
    while PATCH with [data: ""] stores [{data: "", author: username}] at the
    index and answers with it. *)
Theorem patch_accepts_empty_data username index rest this
    (Hi : in_range this index) :
  put_handler username (mkBody "" rest) this
  = (Return (ErrorStatus 400 "Invalid memo: 'data' and 'author' fields are required."),
     this)
  ∧ patch_handler username index (mkBody "" rest) this
    = (Return (OneMemo (Some (mkMemo (Str "") (Str username)))),
       mkNote (<[Z.to_nat index := mkMemo (Str "") (Str username)]> (this_data this))).
Proof.
  split.
  - by rewrite put_handler_run.
  - by rewrite patch_handler_run, bool_decide_eq_true_2.
Qed.

Lemma patch_accepts_empty_data_witness :
  (put_handler "alice" (mkBody "" []) note_at_start).2 = note_at_start
  ∧ (patch_handler "alice" 0 (mkBody "" []) note_at_start).2
    = mkNote [mkMemo (Str "") (Str "alice")].
Proof.
  assert (in_range note_at_start 0) as Hi by (unfold in_range, size; simpl; lia).
  destruct (patch_accepts_empty_data "alice" 0 [] note_at_start Hi) as [Hput Hpatch].
  rewrite Hput, Hpatch. split; reflexivity.
Defined.


(** No request makes the store shorter, DELETE included: the store after
    any list of requests is at least as long as before, and the store the
    application starts with never becomes empty. *)
Theorem store_never_shrinks rs this :
  size this ≤ size (serve rs this).2
  ∧ 1 ≤ size (serve rs note_at_start).2.
Proof.
  assert (∀ this', size this' ≤ size (serve rs this').2) as Hmono.
  { induction rs as [| r rs IH]; intros this'; [done |].
    rewrite serve_cons. simpl.
    pose proof (route_size r this'). pose proof (IH (route r this').2). lia. }
  split; [apply Hmono |].
  pose proof (Hmono note_at_start) as Hstart.
  by change (size note_at_start) with 1 in Hstart.
Qed.

Lemma serve_writes rs this m :
  m ∈ this_data (serve rs this).2 →
  m ∈ this_data this
  ∨ ∃ u, u ∈ writers rs ∧ supplied (data m) ∧ author m = Str u.
Proof.
  intros Hm. revert this Hm. induction rs as [| r rs IH]; intros this Hm; [by left |].
  rewrite serve_cons in Hm. simpl in Hm.
  destruct (IH _ Hm) as [Hbefore | (u & Hu & Hd & Ha)].
  - destruct (route_writes _ _ _ Hbefore) as [Hold | (u & Hu & Hd1 & Hd2 & Ha)];
      [by left |].
    right. exists u. split_and!; [| | done].
    + apply writers_cons. by left.
    + destruct (data m) as [| | s]; [done | done | by exists s].
  - right. exists u. split_and!; [| done | done].
    apply writers_cons. by right.
Qed.

(** Every memo found in the store after a list of requests was there
    before, or was written by a PUT or PATCH of the list: it then has a
    string as [data] and the username of one of these requests as
    [author]. *)
Theorem served_memos_have_writers rs this m
    (Hm : m ∈ this_data (serve rs this).2) :
  m ∈ this_data this
  ∨ ∃ u, u ∈ writers rs ∧ supplied (data m) ∧ author m = Str u.
Proof. by apply serve_writes. Qed.

Lemma served_memos_have_writers_witness :
  hello_alice ∈ this_data note_at_start
  ∨ ∃ u, u ∈ writers [Delete 0; Put "alice" (mkBody "hello" [])]
         ∧ supplied (data hello_alice) ∧ author hello_alice = Str u.
Proof.
  apply (served_memos_have_writers
           [Delete 0; Put "alice" (mkBody "hello" [])] note_at_start hello_alice).
  apply list_elem_of_lookup. exists 1%nat. reflexivity.
Defined.

(** When every stored memo has strings in both fields, the same holds after
    any list of requests: no route can store [undefined] in a field. *)
Theorem routes_keep_string_fields rs this
    (Hall : Forall string_fields (this_data this)) :
  Forall string_fields (this_data (serve rs this).2).
Proof.
  apply Forall_forall. intros m Hm.
  destruct (serve_writes rs this m Hm) as [Hold | (u & _ & Hd & Ha)].
  - by eapply Forall_forall in Hall.
  - split; [done |]. rewrite Ha. by exists u.
Qed.

Lemma routes_keep_string_fields_witness :
  Forall string_fields
    (this_data
       (serve [Put "alice" (mkBody "hello" []); Patch "bob" 0 (mkBody "" [])]
          note_at_start).2).
Proof.
  apply routes_keep_string_fields.
  apply Forall_singleton. split; eexists; reflexivity.
Defined.
